(** * Hangman: the game-state machine of [hangman.py]

    A shallow embedding of the round logic of the terminal hangman game:
    the word list, the [GameState] dataclass and its methods, the guess
    prompt of the [UI] class, the [Hangman] game-logic class and the
    [play_game] loop.

    Python values are modelled as follows.
    - [str] is [string]; a character is a string of length one, as in
      Python.  The embedding covers the ASCII code points: [upper],
      [lower], [strip] and [split] act on them as Python does.
    - [set[str]] is [gset string]: the program never iterates over its
      sets, so only membership matters.
    - [int] is [Z] (Python integers do not wrap).
    - Console input is the list of the lines the player will type; a
      function that reads returns the lines it has not consumed.
    - An uncaught exception is a value of [exn]. *)

From Stdlib Require Import ZArith Ascii.
From stdpp Require Import gmap strings list.
From Equations Require Import Equations.

Local Open Scope Z_scope.

(* [set_solver] clears hypotheses it has already used. *)
#[local] Set Warnings "-clear-no-such-hyp".

(** ** Strings *)

Module Str.

(** The one-character strings of [s], in order: what iterating over a
    Python [str] yields. *)
Fixpoint chars (s : string) : list string :=
  match s with
  | EmptyString => []
  | String c s' => String c EmptyString :: chars s'
  end.

Definition len (s : string) : Z := Z.of_nat (String.length s).

Definition code (c : ascii) : N := N_of_ascii c.

Definition is_upper_char (c : ascii) : bool :=
  ((65 <=? code c) && (code c <=? 90))%N.

Definition is_lower_char (c : ascii) : bool :=
  ((97 <=? code c) && (code c <=? 122))%N.

(** [str.isspace] on one ASCII character: tab, line feed, vertical tab,
    form feed, carriage return, the four separators 28..31 and space. *)
Definition is_space (c : ascii) : bool :=
  (((9 <=? code c) && (code c <=? 13))
   || ((28 <=? code c) && (code c <=? 31))
   || (code c =? 32))%N.

Definition upper_char (c : ascii) : ascii :=
  if is_lower_char c then ascii_of_N (code c - 32) else c.

Definition lower_char (c : ascii) : ascii :=
  if is_upper_char c then ascii_of_N (code c + 32) else c.

Fixpoint map_chars (f : ascii → ascii) (s : string) : string :=
  match s with
  | EmptyString => EmptyString
  | String c s' => String (f c) (map_chars f s')
  end.

(** [s.upper()] and [s.lower()] *)
Definition upper : string → string := map_chars upper_char.
Definition lower : string → string := map_chars lower_char.

(** [s.lstrip()] *)
Fixpoint lstrip (s : string) : string :=
  match s with
  | EmptyString => EmptyString
  | String c s' => if is_space c then lstrip s' else s
  end.

(** [s.rstrip()]: a character is dropped when it is white space and
    nothing but white space follows it. *)
Fixpoint rstrip (s : string) : string :=
  match s with
  | EmptyString => EmptyString
  | String c s' =>
      match rstrip s' with
      | EmptyString => if is_space c then EmptyString else String c EmptyString
      | r => String c r
      end
  end.

(** [s.strip()] *)
Definition strip (s : string) : string := rstrip (lstrip s).

(** [s.split()]: the maximal runs of characters that are not white
    space.  [cur] is the run being read, reversed. *)
Fixpoint split_go (cur : list ascii) (s : string) : list string :=
  let flush := match cur with
               | [] => []
               | _ => [String.string_of_list_ascii (reverse cur)]
               end in
  match s with
  | EmptyString => flush
  | String c s' =>
      if is_space c then flush ++ split_go [] s'
      else split_go (c :: cur) s'
  end.

Definition split (s : string) : list string := split_go [] s.

(** [sub in s]: [sub] occurs in [s] as a substring. *)
Fixpoint contains (s sub : string) : bool :=
  String.prefix sub s
  || match s with
     | EmptyString => false
     | String _ s' => contains s' sub
     end.

(** A word of capital letters only. *)
Fixpoint all_upper (s : string) : bool :=
  match s with
  | EmptyString => true
  | String c s' => is_upper_char c && all_upper s'
  end.

(** [s.split(sep)] for a separator of one character: the pieces between
    the separators, empty pieces included; never the empty list. *)
Fixpoint split_on (sep : ascii) (s : string) : list string :=
  match s with
  | EmptyString => [EmptyString]
  | String c s' =>
      if Ascii.eqb c sep then EmptyString :: split_on sep s'
      else match split_on sep s' with
           | [] => [String c EmptyString]
           | piece :: pieces => String c piece :: pieces
           end
  end.

(** [sep.join(pieces)] *)
Fixpoint join (sep : string) (pieces : list string) : string :=
  match pieces with
  | [] => EmptyString
  | [piece] => piece
  | piece :: pieces' => String.append piece (String.append sep (join sep pieces'))
  end.

(** The line feed. *)
Definition nl : ascii := "010"%char.

(** [s.title()]: a letter is made a capital when no letter stands before
    it, and a small letter otherwise; [cased] tells whether the character
    before was a letter. *)
Fixpoint title_go (cased : bool) (s : string) : string :=
  match s with
  | EmptyString => EmptyString
  | String c s' =>
      if is_lower_char c then
        String (if cased then c else upper_char c) (title_go true s')
      else if is_upper_char c then
        String (if cased then lower_char c else c) (title_go true s')
      else String c (title_go false s')
  end.

Definition title : string → string := title_go false.

End Str.

(** ** Exceptions *)

Inductive exn : Type :=
  | ValueError (msg : string)
  | RuntimeError (msg : string)
  | IndexError.

Inductive result (A : Type) : Type :=
  | Ok (a : A)
  | Raise (e : exn).
Arguments Ok {A} a.
Arguments Raise {A} e.

(** ** The drawings *)

(** [images()]: the ten drawings, from the empty gallows to the hanged man. *)
Definition images : list string :=
  [ "
=====";
    "
    +
    |
    |
    |
    |
    |
=====";
    "
 +--+
    |
    |
    |
    |
    |
=====";
    "
 +--+
 |  |
    |
    |
    |
    |
=====";
    "
 +--+
 |  |
 O  |
    |
    |
    |
=====";
    "
 +--+
 |  |
 O  |
 |  |
    |
    |
=====";
    "
 +--+
 |  |
 O  |
/|  |
    |
    |
=====";
    "
 +--+
 |  |
 O  |
/|\ |
    |
    |
=====";
    "
 +--+
 |  |
 O  |
/|\ |
/   |
    |
=====";
    "
 +--+
 |  |
 O  |
/|\ |
/ \ |
    |
=====" ].

(** [len(images()) - 1], the index of the last drawing. *)
Definition maxStages : Z := Z.of_nat (length images) - 1.

(** [t[i]] on a Python sequence: a negative index counts from the end,
    an index outside [-len, len) raises [IndexError]. *)
Definition py_index {A} (l : list A) (i : Z) : result A :=
  let n := Z.of_nat (length l) in
  let j := if i <? 0 then i + n else i in
  if (j <? 0) || (n <=? j) then Raise IndexError
  else match l !! Z.to_nat j with
       | Some x => Ok x
       | None => Raise IndexError
       end.

(** ** The word list *)

Definition animal_words : string :=
"
    Dog Cat Elephant Lion Tiger Giraffe Zebra Bear Koala
    Panda Kangaroo Penguin Dolphin Eagle Owl Fox Wolf Cheetah
    Leopard Jaguar Horse Cow Pig Sheep Goat Chicken Duck Goose
    Swan Octopus Shark Whale Platypus Chimpanzee Gorilla Orangutan
    Baboon Raccoon Squirrel Bat Hedgehog Armadillo Sloth Porcupine
    Anteater Camel Dingo Kangaroo Rat Lemur Meerkat Ocelot Parrot
    Quokka Vulture Wombat Yak Iguana jaguar Kakapo Lemming
    Manatee Nutria Ostrich Pangolin Quail Rhinoceros Serval
    Wallaby Coypu Tapir Pheasant
    ".

(** The table of categories, [word_list_dict]. *)
Definition word_list_dict : gmap string string :=
  {[ "animals" := animal_words ]}.

(** [get_word_list(category)]: the category is lower-cased, looked up in
    the table, and the words found are split at white space and
    upper-cased.  [KeyError] becomes [ValueError]. *)
Definition get_word_list (category : string) : result (list string) :=
  let category := Str.lower category in
  match word_list_dict !! category with
  | Some words => Ok (Str.upper <$> Str.split words)
  | None => Raise (ValueError "Invalid category.")
  end.

(** [get_secret_word()], with the random index [randint(0, len(words) - 1)]
    supplied by the caller as [pick]. *)
Definition get_secret_word (pick : Z) : result string :=
  match get_word_list "animals" with
  | Raise _ => Raise (RuntimeError "Unable to retrieve word list.")
  | Ok words =>
      match py_index words pick with
      | Raise e => Raise e
      | Ok secret_word =>
          if 0 <? Str.len secret_word then Ok secret_word
          else Raise (RuntimeError "Unable to return secret word.")
      end
  end.

(** ** The game state *)

(** [PuzzleLetter]: a character of the mystery word and whether it has
    been guessed. *)
Record PuzzleLetter : Type := mkPuzzleLetter {
  character : string;
  guessed : bool
}.

Abbreviation Puzzle := (list PuzzleLetter).

Record GameState : Type := mkGameState {
  player_name : string;
  word : string;
  current_guess : string;
  guesses : gset string;
  remaining_letters : gset string;
  puzzle : Puzzle;
  image_idx : Z
}.

(** [GameState()]: the defaults of the dataclass. *)
Definition new_GameState : GameState :=
  {| player_name := ""; word := ""; current_guess := "";
     guesses := ∅; remaining_letters := ∅; puzzle := []; image_idx := 0 |}.

(** [set(s)] for a string [s]. *)
Definition py_set (s : string) : gset string := list_to_set (Str.chars s).

Module GS.

Definition initialise_game_state (self : GameState) : GameState :=
  {| player_name := player_name self;
     word := word self;
     current_guess := current_guess self;
     guesses := guesses self;
     remaining_letters := py_set (word self);
     puzzle := (λ char, mkPuzzleLetter char false) <$> Str.chars (word self);
     image_idx := image_idx self |}.

Definition update_puzzle (self : GameState) : GameState :=
  {| player_name := player_name self;
     word := word self;
     current_guess := current_guess self;
     guesses := guesses self;
     remaining_letters := remaining_letters self;
     puzzle :=
       (λ pl, mkPuzzleLetter (character pl)
                (guessed pl || bool_decide (character pl = current_guess self)))
       <$> puzzle self;
     image_idx := image_idx self |}.

(** [remaining_letters.remove] raises [KeyError] when the guess is not
    in the set; the handler then counts a wrong guess. *)
Definition update_state_on_guess (self : GameState) : GameState :=
  if bool_decide (current_guess self ∈ remaining_letters self) then
    update_puzzle
      {| player_name := player_name self;
         word := word self;
         current_guess := current_guess self;
         guesses := guesses self;
         remaining_letters := remaining_letters self ∖ {[ current_guess self ]};
         puzzle := puzzle self;
         image_idx := image_idx self |}
  else
    {| player_name := player_name self;
       word := word self;
       current_guess := current_guess self;
       guesses := guesses self;
       remaining_letters := remaining_letters self;
       puzzle := puzzle self;
       image_idx := image_idx self + 1 |}.

Definition reset_current_game (self : GameState) : GameState :=
  {| player_name := player_name self;
     word := "";
     current_guess := "";
     guesses := ∅;
     remaining_letters := ∅;
     puzzle := [];
     image_idx := 0 |}.

End GS.

(** ** The user interface *)

Module UI.

(** What [get_guess] does with the lines typed: the text it prints, and
    the guess it returns with the lines left unread, or [None] when the
    lines run out while it waits at the prompt. *)
Definition prompted : Type := list string * option (string * list string).

Definition say (msgs : list string) (p : prompted) : prompted :=
  (msgs ++ p.1, p.2).

Definition normalise (line : string) : string := Str.upper (Str.strip line).

Fixpoint get_guess (game_state : GameState) (inputs : list string) : prompted :=
  match inputs with
  | [] => (["Guess a letter: "], None)
  | line :: inputs' =>
      let new_guess := normalise line in
      if negb (Str.len new_guess =? 1) then
        say ["Guess a letter: "; "Guesses must be one letter only."]
            (get_guess game_state inputs')
      else if bool_decide (new_guess ∈ guesses game_state) then
        say ["Guess a letter: "; "You've already guessed '" +:+ new_guess +:+ "'"]
            (get_guess game_state inputs')
      else (["Guess a letter: "], Some (new_guess, inputs'))
  end.

Definition get_image (game_state : GameState) : result string :=
  py_index images (image_idx game_state).

(** The row of underscores and guessed letters. *)
Definition puzzle_row (p : Puzzle) : string :=
  foldr String.append ""
    ((λ pl, if guessed pl then character pl +:+ " " else "_ ") <$> p).

(** [update_screen]: the drawing and the row it displays; it raises
    when [image_idx] is no index of [images()]. *)
Definition update_screen (game_state : GameState) : result (list string) :=
  match get_image game_state with
  | Raise e => Raise e
  | Ok image => Ok [image; puzzle_row (puzzle game_state)]
  end.

(** [self._indent], four spaces. *)
Definition _indent : string := "    ".

Definition indent_text (text : string) : string :=
  Str.join (String Str.nl "")
    ((λ line, _indent +:+ line) <$> Str.split_on Str.nl text).

(** [display_message(message, end)]: the text it prints. *)
Definition display_message (message end_ : string) : string :=
  indent_text message +:+ end_.

(** [do_welcome]: the line typed, in title case, is the name of the
    player; [None] when no line is left to read. *)
Definition do_welcome (inputs : list string) : option (string * list string) :=
  match inputs with
  | [] => None
  | line :: inputs' => Some (Str.title line, inputs')
  end.

(** What [prompt_confirm] does with the lines typed: the text it prints,
    and the answer with the lines left unread, or [None] when the lines
    run out. *)
Definition confirmed : Type := list string * option (bool * list string).

Definition yes : list string := ["y"; "yes"].
Definition no : list string := ["n"; "no"].

Fixpoint prompt_confirm (prompt : string) (inputs : list string) : confirmed :=
  match inputs with
  | [] => ([display_message prompt ""], None)
  | val :: inputs' =>
      if bool_decide (val ∈ yes) then
        ([display_message prompt ""], Some (true, inputs'))
      else if bool_decide (val ∈ no) then
        ([display_message prompt ""], Some (false, inputs'))
      else
        let r := prompt_confirm prompt inputs' in
        ([display_message prompt ""; "Enter 'Y' or 'N'."] ++ r.1, r.2)
  end.

(** [display_exit_dialog]: the text it prints. *)
Definition display_exit_dialog (game_state : GameState) : string :=
  display_message
    (String Str.nl "" +:+ "Bye " +:+ player_name game_state +:+ ".")
    (String Str.nl "").

End UI.

(** ** The game logic *)

Module Hangman.

Definition initialise_game (state : GameState) (puzzle_word : string) : GameState :=
  GS.initialise_game_state
    {| player_name := player_name state;
       word := puzzle_word;
       current_guess := current_guess state;
       guesses := guesses state;
       remaining_letters := remaining_letters state;
       puzzle := puzzle state;
       image_idx := image_idx state |}.

Definition update_game_state (state : GameState) (new_guess : string) : GameState :=
  GS.update_state_on_guess
    {| player_name := player_name state;
       word := word state;
       current_guess := new_guess;
       guesses := guesses state ∪ {[ new_guess ]};
       remaining_letters := remaining_letters state;
       puzzle := puzzle state;
       image_idx := image_idx state |}.

Definition is_good_guess (state : GameState) : bool :=
  Str.contains (word state) (current_guess state).

Definition player_loses (state : GameState) : bool :=
  image_idx state =? maxStages.

End Hangman.

(** ** The round *)

(** How a call of [play_game] ends: it returns [True] or [False], an
    exception escapes, or the typed lines run out while the prompt waits.
    Each case carries the state the game is left in. *)
Inductive outcome : Type :=
  | Returned (player_wins : bool) (state : GameState) (unread : list string)
  | Raised (e : exn) (state : GameState)
  | AwaitingInput (state : GameState).

(** A value together with the equation that names it, so that a case
    analysis on it is remembered in the termination proof. *)
Definition inspect {A : Type} (x : A) : { y : A | x = y } := exist _ x eq_refl.

(** The [while] loop of [play_game]. *)
Equations? play_loop (state : GameState) (inputs : list string) : outcome
  by wf (length inputs) lt :=
  play_loop state inputs with bool_decide (remaining_letters state ≠ ∅) => {
    | false := Returned true state inputs
    | true with inspect (UI.get_guess state inputs) => {
      | exist _ (pair _ None) _ := AwaitingInput state
      | exist _ (pair _ (Some (pair new_guess rest))) Hget :=
          let state' := Hangman.update_game_state state new_guess in
          match UI.update_screen state' with
          | Raise e => Raised e state'
          | Ok _ =>
              if Hangman.player_loses state' then Returned false state' rest
              else play_loop state' rest
          end } }.
Proof.
  (* a guess that [get_guess] returns was typed: fewer lines are left *)
  clear play_loop state'. revert l Hget.
  induction inputs as [|line inputs IH]; intros out; simpl; [intros [=]|].
  destruct (negb _); [|destruct (bool_decide _)].
  - destruct (UI.get_guess state inputs) as [o r] eqn:E.
    unfold UI.say; simpl. intros [= _ ->]. specialize (IH _ eq_refl). lia.
  - destruct (UI.get_guess state inputs) as [o r] eqn:E.
    unfold UI.say; simpl. intros [= _ ->]. specialize (IH _ eq_refl). lia.
  - intros [= _ _ ->]. lia.
Qed.

(** [play_game(game)] *)
Definition play_game (state : GameState) (inputs : list string) : outcome :=
  match UI.update_screen state with
  | Raise e => Raised e state
  | Ok _ => play_loop state inputs
  end.

(** ** A game and a session *)

(** How a call of [new_game] ends: the game is over and the state reset;
    the program leaves through [sys.exit()] after the word could not be
    drawn; an exception escapes; or the typed lines run out. *)
Inductive game_end : Type :=
  | GameOver (player_wins : bool) (answer : string)
      (state : GameState) (unread : list string)
  | GameExit (state : GameState)
  | GameRaised (e : exn) (state : GameState)
  | GameAwaiting (state : GameState).

Definition set_player_name (state : GameState) (name : string) : GameState :=
  {| player_name := name;
     word := word state;
     current_guess := current_guess state;
     guesses := guesses state;
     remaining_letters := remaining_letters state;
     puzzle := puzzle state;
     image_idx := image_idx state |}.

(** The rest of [new_game], once the name of the player is known. *)
Definition new_game_named (state : GameState) (pick : Z) (inputs : list string)
  : game_end :=
  match get_secret_word pick with
  | Raise (RuntimeError _) => GameExit state
  | Raise e => GameRaised e state
  | Ok secret_word =>
      let state := Hangman.initialise_game state secret_word in
      match play_game state inputs with
      | Returned player_wins state unread =>
          GameOver player_wins (word state)
            (GS.reset_current_game state) unread
      | Raised e state => GameRaised e state
      | AwaitingInput state => GameAwaiting state
      end
  end.

(** [new_game(game)]; [pick] is the random index drawn for the word. *)
Definition new_game (state : GameState) (pick : Z) (inputs : list string)
  : game_end :=
  if bool_decide (player_name state = "") then
    match UI.do_welcome inputs with
    | None => GameAwaiting state
    | Some (name, inputs') =>
        new_game_named (set_player_name state name) pick inputs'
    end
  else new_game_named state pick inputs.

(** The state a call of [new_game] leaves the game in. *)
Definition end_state (e : game_end) : GameState :=
  match e with
  | GameOver _ _ state _ => state
  | GameExit state => state
  | GameRaised _ state => state
  | GameAwaiting state => state
  end.

(** How the session stands: the program has left, with the farewell
    printed by [do_quit] if it left that way; an exception has escaped;
    the typed lines have run out; or the loop of [main] is about to start
    one more game. *)
Inductive session : Type :=
  | Quit (farewell : string) (state : GameState)
  | Exited (state : GameState)
  | Crashed (e : exn) (state : GameState)
  | Waiting (state : GameState)
  | Playing (state : GameState) (game : nat) (inputs : list string).

(** The first [n] turns of the [while True] loop of [main], from the
    state [state] before game number [game]; [picks] gives the random
    index drawn in each game. *)
Fixpoint main_loop (n : nat) (picks : nat → Z) (state : GameState)
    (game : nat) (inputs : list string) : session :=
  match n with
  | O => Playing state game inputs
  | S n' =>
      match new_game state (picks game) inputs with
      | GameExit state' => Exited state'
      | GameRaised e state' => Crashed e state'
      | GameAwaiting state' => Waiting state'
      | GameOver _ _ state' unread =>
          match (UI.prompt_confirm "Play again? [y/n] " unread).2 with
          | None => Waiting state'
          | Some (true, inputs') => main_loop n' picks state' (S game) inputs'
          | Some (false, _) => Quit (UI.display_exit_dialog state') state'
          end
      end
  end.

(** [main()], followed for [n] games at most. *)
Definition main (n : nat) (picks : nat → Z) (inputs : list string) : session :=
  main_loop n picks new_GameState 0 inputs.

(** The state a call of [play_game] leaves the game in. *)
Definition final_state (o : outcome) : GameState :=
  match o with
  | Returned _ state _ => state
  | Raised _ state => state
  | AwaitingInput state => state
  end.

(** ** Notions the properties are stated with *)

(** The state a round starts from: the state of the session, new or reset
    at the end of the round before, initialised with the word. *)
Definition fresh_round (session : GameState) (w : string) : GameState :=
  Hangman.initialise_game (GS.reset_current_game session) w.

(** A guess as [get_guess] lets it through: one character, not tried yet. *)
Definition validated (state : GameState) (g : string) : Prop :=
  Str.len g = 1 ∧ g ∉ guesses state.

(** The states of a round on the word [w]. *)
Inductive reachable (w : string) : GameState → Prop :=
  | reach_fresh session : reachable w (fresh_round session w)
  | reach_guess state g :
      reachable w state → validated state g →
      reachable w (Hangman.update_game_state state g).

(** The characters at the puzzle positions that are shown. *)
Definition revealed_letters (p : Puzzle) : gset string :=
  list_to_set (character <$> filter (λ pl, guessed pl = true) p).

(** The letters tried that are in the word. *)
Definition guessed_correctly (w : string) (state : GameState) : gset string :=
  guesses state ∩ py_set w.

(** The state after the guesses [gs], taken in order. *)
Definition after_guesses (state : GameState) (gs : list string) : GameState :=
  foldl Hangman.update_game_state state gs.

(** A capital letter, as a string of one character. *)
Definition capital_letter (g : string) : Prop :=
  Str.len g = 1 ∧ Str.all_upper g = true.

(** A word of the list as the game needs it: not empty, capital letters
    only. *)
Definition quiz_word (w : string) : Prop := w ≠ "" ∧ Str.all_upper w = true.

(** What holds of every state of a round on [w]: the letters still
    required are those of the word not tried, and a position is shown
    exactly when its character has been tried. *)
Definition round_inv (w : string) (state : GameState) : Prop :=
  word state = w
  ∧ remaining_letters state = py_set w ∖ guesses state
  ∧ puzzle state =
      (λ c, mkPuzzleLetter c (bool_decide (c ∈ guesses state))) <$> Str.chars w.

(** ** The loop, one iteration at a time *)

#[local] Arguments Hangman.update_game_state : simpl never.
#[local] Arguments UI.update_screen : simpl never.
#[local] Arguments UI.normalise : simpl never.

Lemma play_loop_eq state inputs :
  play_loop state inputs =
  if bool_decide (remaining_letters state ≠ ∅) then
    match (UI.get_guess state inputs).2 with
    | None => AwaitingInput state
    | Some (new_guess, rest) =>
        let state' := Hangman.update_game_state state new_guess in
        match UI.update_screen state' with
        | Raise e => Raised e state'
        | Ok _ =>
            if Hangman.player_loses state' then Returned false state' rest
            else play_loop state' rest
        end
    end
  else Returned true state inputs.
Proof.
  rewrite play_loop_equation_1. unfold play_loop_unfold_clause_1.
  destruct (bool_decide _); [|done].
  destruct (inspect (UI.get_guess state inputs)) as [[out [[g rest]|]] H];
    simpl; by rewrite H.
Qed.

Lemma play_loop_won state inputs :
  remaining_letters state = ∅ → play_loop state inputs = Returned true state inputs.
Proof.
  intros H. rewrite play_loop_eq, bool_decide_eq_false_2; [done|]. by intros [].
Qed.

Lemma get_guess_accept state line rest :
  Str.len (UI.normalise line) = 1 →
  UI.normalise line ∉ guesses state →
  UI.get_guess state (line :: rest)
  = (["Guess a letter: "], Some (UI.normalise line, rest)).
Proof.
  intros Hlen Hnew. simpl. rewrite Hlen. simpl.
  by rewrite bool_decide_eq_false_2.
Qed.

Lemma get_guess_repeat state line rest :
  Str.len (UI.normalise line) = 1 →
  UI.normalise line ∈ guesses state →
  UI.get_guess state (line :: rest)
  = UI.say ["Guess a letter: ";
            "You've already guessed '" +:+ UI.normalise line +:+ "'"]
           (UI.get_guess state rest).
Proof.
  intros Hlen Hold. simpl. rewrite Hlen. simpl.
  by rewrite bool_decide_eq_true_2.
Qed.

Lemma get_guess_prompts state inputs :
  ∃ more, (UI.get_guess state inputs).1 = "Guess a letter: " :: more.
Proof.
  destruct inputs as [|line rest]; simpl; [by eexists|].
  destruct (negb _); [by eexists|]. destruct (bool_decide _); by eexists.
Qed.

(** One accepted guess: the state is updated and shown, then loss is
    tested, and only then the loop condition. *)
Lemma play_loop_guess state line rest :
  remaining_letters state ≠ ∅ →
  validated state (UI.normalise line) →
  play_loop state (line :: rest) =
  let state' := Hangman.update_game_state state (UI.normalise line) in
  match UI.update_screen state' with
  | Raise e => Raised e state'
  | Ok _ =>
      if Hangman.player_loses state' then Returned false state' rest
      else play_loop state' rest
  end.
Proof.
  intros Hrem [Hlen Hnew]. rewrite play_loop_eq.
  rewrite bool_decide_eq_true_2 by done.
  by rewrite get_guess_accept.
Qed.

Lemma update_screen_ok state :
  -10 ≤ image_idx state ≤ 9 → ∃ out, UI.update_screen state = Ok out.
Proof.
  intros H. unfold UI.update_screen, UI.get_image, py_index.
  change (Z.of_nat (length images)) with 10.
  destruct (image_idx state <? 0) eqn:Hneg.
  - apply Z.ltb_lt in Hneg.
    rewrite orb_false_intro by lia.
    destruct (images !! Z.to_nat (image_idx state + 10)) eqn:E; [by eexists|].
    apply lookup_ge_None in E. simpl in E. lia.
  - apply Z.ltb_ge in Hneg.
    rewrite orb_false_intro by lia.
    destruct (images !! Z.to_nat (image_idx state)) eqn:E; [by eexists|].
    apply lookup_ge_None in E. simpl in E. lia.
Qed.

(** ** Capital letters are typed as they are *)

Lemma upper_char_not_space c :
  Str.is_upper_char c = true → Str.is_space c = false ∧ Str.upper_char c = c.
Proof.
  unfold Str.is_upper_char, Str.is_space, Str.upper_char, Str.is_lower_char.
  generalize (Str.code c); intros n H.
  apply andb_true_iff in H as [H1%N.leb_le H2%N.leb_le].
  assert ((97 <=? n)%N = false) as -> by (apply N.leb_gt; lia).
  assert ((n <=? 13)%N = false) as -> by (apply N.leb_gt; lia).
  assert ((n <=? 31)%N = false) as -> by (apply N.leb_gt; lia).
  assert ((n =? 32)%N = false) as -> by (apply N.eqb_neq; lia).
  by rewrite !andb_false_r.
Qed.

Lemma normalise_capital g : capital_letter g → UI.normalise g = g.
Proof.
  intros [Hlen Hup]. unfold Str.len in Hlen.
  destruct g as [|c [|]]; simpl in Hlen; [lia| |lia].
  simpl in Hup. rewrite andb_true_r in Hup.
  destruct (upper_char_not_space c Hup) as [Hsp Hc].
  unfold UI.normalise, Str.strip. simpl. rewrite Hsp. simpl. rewrite Hsp.
  unfold Str.upper. simpl. by rewrite Hc.
Qed.

Lemma chars_capital w g :
  Str.all_upper w = true → g ∈ Str.chars w → capital_letter g.
Proof.
  induction w as [|c w IH]; simpl; [by intros _ ?%elem_of_nil|].
  intros [Hc Hw]%andb_true_iff [->|Hin]%elem_of_cons; [|by apply IH].
  split; [done|]. simpl. by rewrite Hc.
Qed.

Lemma elem_of_py_set w g : g ∈ py_set w ↔ g ∈ Str.chars w.
Proof. unfold py_set. by rewrite elem_of_list_to_set. Qed.

Lemma py_set_nonempty w : w ≠ "" → py_set w ≠ ∅.
Proof.
  destruct w as [|c w]; [done|]. intros _ H.
  assert (String c "" ∈ py_set (String c w)) as Hin
    by (apply elem_of_py_set; simpl; left).
  rewrite H in Hin. by apply not_elem_of_empty in Hin.
Qed.

(** ** One guess *)

Section one_guess.
Variables (state : GameState) (g : string).

Let state' := Hangman.update_game_state state g.

Lemma update_guesses : guesses state' = guesses state ∪ {[ g ]}.
Proof.
  unfold state', Hangman.update_game_state, GS.update_state_on_guess. simpl.
  by destruct (bool_decide _).
Qed.

Lemma update_word : word state' = word state.
Proof.
  unfold state', Hangman.update_game_state, GS.update_state_on_guess. simpl.
  by destruct (bool_decide _).
Qed.

Lemma update_player_name : player_name state' = player_name state.
Proof.
  unfold state', Hangman.update_game_state, GS.update_state_on_guess. simpl.
  by destruct (bool_decide _).
Qed.

(** A letter still required: it is removed and its positions are shown;
    the drawing stays. *)
Lemma update_good :
  g ∈ remaining_letters state →
  remaining_letters state' = remaining_letters state ∖ {[ g ]}
  ∧ image_idx state' = image_idx state
  ∧ puzzle state' =
      (λ pl, mkPuzzleLetter (character pl)
               (guessed pl || bool_decide (character pl = g)))
      <$> puzzle state.
Proof.
  intros H.
  unfold state', Hangman.update_game_state, GS.update_state_on_guess. simpl.
  by rewrite bool_decide_eq_true_2.
Qed.

(** Any other guess: the drawing advances by one and nothing else of
    the round changes. *)
Lemma update_bad :
  g ∉ remaining_letters state →
  remaining_letters state' = remaining_letters state
  ∧ image_idx state' = image_idx state + 1
  ∧ puzzle state' = puzzle state.
Proof.
  intros H.
  unfold state', Hangman.update_game_state, GS.update_state_on_guess. simpl.
  by rewrite bool_decide_eq_false_2.
Qed.

End one_guess.

(** The invariant of the round is kept by every guess. *)
Lemma update_round_inv w state g :
  round_inv w state → round_inv w (Hangman.update_game_state state g).
Proof.
  intros (Hw & Hrem & Hpuz). split; [by rewrite update_word|].
  rewrite update_guesses.
  destruct (decide (g ∈ remaining_letters state)) as [Hin|Hout].
  - destruct (update_good state g Hin) as (Hrem' & _ & Hpuz').
    rewrite Hrem', Hpuz'. split; [set_solver|].
    rewrite Hpuz, <- list_fmap_compose. apply list_fmap_ext.
    intros _ c _. simpl. f_equal.
    apply eq_bool_prop_intro. rewrite orb_True, !bool_decide_spec. set_solver.
  - destruct (update_bad state g Hout) as (Hrem' & _ & Hpuz').
    rewrite Hrem', Hpuz'. split; [set_solver|].
    rewrite Hpuz. apply list_fmap_ext.
    intros i c Hc. f_equal.
    apply eq_bool_prop_intro. rewrite !bool_decide_spec.
    assert (c ∈ py_set w) as Hcw
      by (apply elem_of_py_set, list_elem_of_lookup; eauto).
    rewrite elem_of_union, elem_of_singleton.
    split; [by left|]. intros [Hold| ->]; [done|].
    destruct (decide (g ∈ guesses state)) as [|Hnew]; [done|].
    destruct Hout. rewrite Hrem. by apply elem_of_difference.
Qed.


(** ** The states of a round *)

(** A state just constructed is a reset state: the first round of a
    session starts as every later one does. *)
Lemma reset_new_GameState : GS.reset_current_game new_GameState = new_GameState.
Proof. reflexivity. Qed.

Lemma reset_keeps_name session :
  GS.reset_current_game session
  = {| player_name := player_name session; word := ""; current_guess := "";
       guesses := ∅; remaining_letters := ∅; puzzle := []; image_idx := 0 |}.
Proof. reflexivity. Qed.

Lemma fresh_round_inv session w : round_inv w (fresh_round session w).
Proof.
  split; [done|]. split; simpl.
  - set_solver.
  - apply list_fmap_ext. intros _ c _. by f_equal.
Qed.

Lemma reachable_round_inv w state : reachable w state → round_inv w state.
Proof.
  induction 1 as [session|state g _ IH _].
  - apply fresh_round_inv.
  - by apply update_round_inv.
Qed.

Lemma after_guesses_round_inv w gs :
  ∀ state, round_inv w state → round_inv w (after_guesses state gs).
Proof.
  induction gs as [|g gs IH]; intros state Hinv; [done|].
  apply IH, update_round_inv, Hinv.
Qed.

Lemma after_guesses_guesses gs :
  ∀ state, guesses (after_guesses state gs) = guesses state ∪ list_to_set gs.
Proof.
  induction gs as [|g gs IH]; intros state; simpl.
  - set_solver.
  - unfold after_guesses in IH. rewrite IH, update_guesses. set_solver.
Qed.

(** Under the invariant, what is shown is what was tried of the word. *)
Lemma round_inv_revealed w state :
  round_inv w state → revealed_letters (puzzle state) = guesses state ∩ py_set w.
Proof.
  intros (_ & _ & Hpuz). unfold revealed_letters. rewrite Hpuz.
  apply set_eq. intros c.
  rewrite elem_of_list_to_set, list_elem_of_fmap, elem_of_intersection,
    elem_of_py_set.
  split.
  - intros (pl & -> & Hpl). apply list_elem_of_filter in Hpl as [Hg Hpl].
    apply list_elem_of_fmap in Hpl as (c & -> & Hc). simpl in *.
    by apply bool_decide_eq_true in Hg.
  - intros [Hc Hw]. exists (mkPuzzleLetter c true). split; [done|].
    apply list_elem_of_filter. split; [done|].
    apply list_elem_of_fmap. exists c. split; [|done].
    by rewrite bool_decide_eq_true_2.
Qed.

(** Where the word has the letter, the puzzle has it too, shown if tried. *)
Lemma round_inv_lookup w state i c :
  round_inv w state → Str.chars w !! i = Some c →
  puzzle state !! i = Some (mkPuzzleLetter c (bool_decide (c ∈ guesses state))).
Proof.
  intros (_ & _ & Hpuz) Hc. by rewrite Hpuz, list_lookup_fmap, Hc.
Qed.

(** ** Rounds of right guesses and rounds of wrong guesses *)

Lemma after_guesses_cons state g gs :
  after_guesses state (g :: gs)
  = after_guesses (Hangman.update_game_state state g) gs.
Proof. done. Qed.

(** The letters still required, typed one after the other: the loop takes
    each, never advances the drawing, and returns [True] after the last. *)
Lemma play_loop_all_good lines rest :
  ∀ state,
    NoDup (UI.normalise <$> lines) →
    (∀ g, g ∈ UI.normalise <$> lines → validated state g) →
    remaining_letters state = list_to_set (UI.normalise <$> lines) →
    image_idx state = 0 →
    let final := after_guesses state (UI.normalise <$> lines) in
    play_loop state (lines ++ rest) = Returned true final rest
    ∧ remaining_letters final = ∅
    ∧ image_idx final = 0.
Proof.
  induction lines as [|line lines IH]; intros state Hnd Hval Hrem Himg;
    cbv zeta in *.
  - split; [|done]. by apply play_loop_won.
  - rewrite fmap_cons in *. rewrite after_guesses_cons, <- app_comm_cons.
    apply NoDup_cons in Hnd as [Hfirst Hnd].
    assert (UI.normalise line ∈ remaining_letters state) as Hin
      by (rewrite Hrem; set_solver).
    destruct (update_good state _ Hin) as (Hrem' & Himg' & _).
    rewrite play_loop_guess; [|set_solver|apply Hval; left]. cbv zeta.
    destruct (update_screen_ok
                (Hangman.update_game_state state (UI.normalise line)))
      as [out ->]; [lia|].
    unfold Hangman.player_loses. rewrite Himg', Himg.
    change (0 =? maxStages) with false. cbv iota.
    apply IH; [done| | |congruence].
    + intros g' Hg'. destruct (Hval g') as [Hlen Hnew]; [by right|].
      split; [done|]. rewrite update_guesses. set_solver.
    + rewrite Hrem', Hrem. set_solver.
Qed.

(** Wrong guesses that bring the drawing to its last stage: the loop
    takes each, keeps the letters required, and returns [False] after the
    last. *)
Lemma play_loop_all_bad lines rest :
  ∀ state,
    lines ≠ [] →
    NoDup (UI.normalise <$> lines) →
    (∀ g, g ∈ UI.normalise <$> lines →
          validated state g ∧ g ∉ remaining_letters state) →
    remaining_letters state ≠ ∅ →
    0 ≤ image_idx state →
    image_idx state + Z.of_nat (length lines) = maxStages →
    let final := after_guesses state (UI.normalise <$> lines) in
    play_loop state (lines ++ rest) = Returned false final rest
    ∧ remaining_letters final = remaining_letters state
    ∧ image_idx final = maxStages.
Proof.
  induction lines as [|line lines IH];
    intros state Hne Hnd Hval Hrem Hpos Hlen; [done|]. cbv zeta in *.
  rewrite fmap_cons in *. rewrite after_guesses_cons, <- app_comm_cons.
  apply NoDup_cons in Hnd as [Hfirst Hnd].
  destruct (Hval (UI.normalise line)) as [Hg Hout]; [left|].
  destruct (update_bad state _ Hout) as (Hrem' & Himg' & _).
  rewrite play_loop_guess by done. cbv zeta.
  change maxStages with 9 in *. rewrite length_cons in Hlen.
  destruct (update_screen_ok
              (Hangman.update_game_state state (UI.normalise line)))
    as [out ->]; [lia|].
  unfold Hangman.player_loses. change maxStages with 9.
  destruct lines as [|line' lines].
  - rewrite Himg'. simpl in Hlen.
    assert ((image_idx state + 1 =? 9) = true) as -> by lia.
    split; [done|]. split; [done|]. simpl. lia.
  - assert ((image_idx (Hangman.update_game_state state (UI.normalise line))
             =? 9) = false) as ->
      by (rewrite length_cons in Hlen; lia).
    rewrite <- Hrem'.
    apply IH; [done|done| |congruence|lia|rewrite length_cons in *; lia].
    intros g' Hg'. destruct (Hval g') as [[Hl Hnew] Hout']; [by right|].
    split; [split; [done|]|congruence].
    rewrite update_guesses. set_solver.
Qed.

(** A guess that [get_guess] returns was typed: fewer lines are left. *)
Lemma get_guess_unread state inputs out g rest :
  UI.get_guess state inputs = (out, Some (g, rest)) →
  (length rest < length inputs)%nat.
Proof.
  revert out. induction inputs as [|line inputs IH]; intros out; simpl.
  { intros [=]. }
  destruct (negb _); [|destruct (bool_decide _)].
  - destruct (UI.get_guess state inputs) as [o r] eqn:E.
    unfold UI.say; simpl. intros [= _ ->]. specialize (IH _ eq_refl). lia.
  - destruct (UI.get_guess state inputs) as [o r] eqn:E.
    unfold UI.say; simpl. intros [= _ ->]. specialize (IH _ eq_refl). lia.
  - intros [= _ _ ->]. lia.
Qed.

(** The drawing stage stays an index of [images()] throughout the loop:
    the loop returns as soon as the stage is [maxStages], so no guess is
    taken at that stage. *)
Lemma play_loop_stage_bound n :
  ∀ inputs state,
    (length inputs < n)%nat →
    0 ≤ image_idx state < maxStages →
    0 ≤ image_idx (final_state (play_loop state inputs)) ≤ maxStages.
Proof.
  induction n as [|n IH]; intros inputs state Hn Hstage; [lia|].
  rewrite play_loop_eq. destruct (bool_decide _); [|simpl; lia].
  destruct (UI.get_guess state inputs) as [out [[g rest]|]] eqn:Hget;
    simpl; [|lia].
  apply get_guess_unread in Hget.
  assert (0 ≤ image_idx (Hangman.update_game_state state g) ≤ maxStages)
    as Hstage'.
  { destruct (decide (g ∈ remaining_letters state)) as [Hin|Hout].
    - destruct (update_good state g Hin) as (_ & -> & _). lia.
    - destruct (update_bad state g Hout) as (_ & -> & _). lia. }
  destruct (UI.update_screen _); [|done].
  unfold Hangman.player_loses.
  destruct (Z.eqb_spec (image_idx (Hangman.update_game_state state g)) maxStages);
    [done|].
  apply IH; lia.
Qed.

Lemma normalise_capitals (gs : list string) :
  (∀ g, g ∈ gs → capital_letter g) → UI.normalise <$> gs = gs.
Proof.
  induction gs as [|g gs IH]; intros H; [done|].
  rewrite fmap_cons, normalise_capital, IH; [done| |].
  - intros g' Hg'. apply H. by right.
  - apply H. by left.
Qed.

(** ** Two rounds, step by step *)

(** The word "CAT" and the guesses A, T, C. *)
Example round_CAT :
  let s0 := fresh_round new_GameState "CAT" in
  let s1 := Hangman.update_game_state s0 "A" in
  let s2 := Hangman.update_game_state s1 "T" in
  let s3 := Hangman.update_game_state s2 "C" in
  guessed <$> puzzle s1 = [false; true; false]
  ∧ remaining_letters s1 = {[ "C"; "T" ]}
  ∧ guessed <$> puzzle s2 = [false; true; true]
  ∧ remaining_letters s2 = {[ "C" ]}
  ∧ guessed <$> puzzle s3 = [true; true; true]
  ∧ remaining_letters s3 = ∅
  ∧ play_game s0 ["A"; "T"; "C"] = Returned true s3 [].
Proof. by vm_compute. Qed.

(** The word "DOG" and nine wrong guesses: the stage after each, and the
    round lost at the ninth. *)
Example round_DOG :
  let s0 := fresh_round new_GameState "DOG" in
  let gs := ["X"; "Y"; "Z"; "Q"; "W"; "E"; "R"; "T"; "U"] in
  (λ k, image_idx (after_guesses s0 (take k gs))) <$> seq 0 10
  = [0; 1; 2; 3; 4; 5; 6; 7; 8; 9]
  ∧ play_game s0 (take 8 gs) = AwaitingInput (after_guesses s0 (take 8 gs))
  ∧ play_game s0 gs = Returned false (after_guesses s0 gs) [].
Proof. by vm_compute. Qed.

(** ** The properties of the round *)

(** C1.  The round won.  For a word [w] of capital letters and guesses
    [gs] that are exactly the distinct letters of [w], each once, typed in
    any order (whatever is typed after them), [play_game] on a freshly
    initialised state returns [True]; in the state it leaves, no letter
    is required, the drawing is at stage 0 and every position of the
    puzzle, one per character of [w], is shown.  The word need not be
    non-empty for this. *)
Theorem play_game_all_letters_wins session w (gs rest : list string) :
  Str.all_upper w = true →
  NoDup gs →
  list_to_set gs = py_set w →
  let final := after_guesses (fresh_round session w) gs in
  play_game (fresh_round session w) (gs ++ rest) = Returned true final rest
  ∧ remaining_letters final = ∅
  ∧ image_idx final = 0
  ∧ character <$> puzzle final = Str.chars w
  ∧ Forall (λ pl, guessed pl = true) (puzzle final).
Proof.
  intros Hup Hnd Hset final.
  assert (∀ g, g ∈ gs → capital_letter g) as Hcap.
  { intros g Hg. apply (chars_capital w); [done|].
    apply elem_of_py_set. rewrite <- Hset. by apply elem_of_list_to_set. }
  pose proof (normalise_capitals gs Hcap) as Hnorm.
  destruct (play_loop_all_good gs rest (fresh_round session w))
    as (Hplay & Hrem & Himg); rewrite ?Hnorm; try done.
  { intros g Hg. split; [apply Hcap, Hg|]. apply not_elem_of_empty. }
  rewrite Hnorm in Hplay, Hrem, Himg. fold final in Hplay, Hrem, Himg.
  split; [|split; [done|split; [done|]]].
  - unfold play_game.
    by destruct (update_screen_ok (fresh_round session w)) as [out ->].
  - destruct (after_guesses_round_inv w gs _ (fresh_round_inv session w))
      as (_ & _ & Hpuz).
    fold final in Hpuz. rewrite Hpuz, <- list_fmap_compose. split.
    + rewrite <- (list_fmap_id (Str.chars w)) at 2. by apply list_fmap_ext.
    + apply Forall_fmap, Forall_forall. intros c Hc. simpl.
      apply bool_decide_eq_true_2. unfold final.
      rewrite after_guesses_guesses, Hset. apply elem_of_union_r.
      by apply elem_of_py_set.
Qed.

Lemma play_game_all_letters_wins_witness :
  let final := after_guesses (fresh_round new_GameState "CAT") ["A"; "T"; "C"] in
  play_game (fresh_round new_GameState "CAT") ["A"; "T"; "C"]
  = Returned true final []
  ∧ remaining_letters final = ∅
  ∧ image_idx final = 0
  ∧ character <$> puzzle final = ["C"; "A"; "T"]
  ∧ Forall (λ pl, guessed pl = true) (puzzle final).
Proof.
  apply (play_game_all_letters_wins new_GameState "CAT" ["A"; "T"; "C"] []).
  - reflexivity.
  - apply (bool_decide_unpack _). vm_compute. exact I.
  - apply (bool_decide_unpack _). vm_compute. exact I.
Defined.

(** C2.  The round lost.  For a non-empty word [w] and [maxStages] (nine)
    distinct capital letters none of which occurs in [w], typed one after
    the other, [play_game] on a freshly initialised state returns
    [False]; the drawing is then at stage [maxStages] and the letters
    required are still the distinct letters of [w]. *)
Theorem play_game_all_wrong_loses session w (gs rest : list string) :
  w ≠ "" →
  Z.of_nat (length gs) = maxStages →
  NoDup gs →
  (∀ g, g ∈ gs → capital_letter g ∧ g ∉ py_set w) →
  let start := fresh_round session w in
  let final := after_guesses start gs in
  play_game start (gs ++ rest) = Returned false final rest
  ∧ image_idx final = maxStages
  ∧ remaining_letters start = py_set w
  ∧ remaining_letters final = py_set w.
Proof.
  intros Hw Hlen Hnd Hgs start final.
  assert (UI.normalise <$> gs = gs) as Hnorm
    by (apply normalise_capitals; intros g Hg; by apply Hgs).
  destruct (play_loop_all_bad gs rest start)
    as (Hplay & Hrem & Himg); rewrite ?Hnorm; try done.
  - intros ->. discriminate Hlen.
  - intros g Hg. destruct (Hgs g Hg) as [[Hl Hup] Hout].
    split; [split; [done|apply not_elem_of_empty]|done].
  - by apply py_set_nonempty.
  - rewrite Hnorm in Hplay, Hrem, Himg. fold final in Hplay, Hrem, Himg.
    split; [|done]. unfold play_game.
    by destruct (update_screen_ok start) as [out ->].
Qed.

Lemma play_game_all_wrong_loses_witness :
  let start := fresh_round new_GameState "DOG" in
  let gs := ["Q"; "W"; "E"; "R"; "T"; "Y"; "U"; "I"; "P"] in
  play_game start gs = Returned false (after_guesses start gs) []
  ∧ image_idx (after_guesses start gs) = 9
  ∧ remaining_letters start = py_set "DOG"
  ∧ remaining_letters (after_guesses start gs) = py_set "DOG".
Proof.
  apply (play_game_all_wrong_loses new_GameState "DOG"
           ["Q"; "W"; "E"; "R"; "T"; "Y"; "U"; "I"; "P"] []).
  - discriminate.
  - reflexivity.
  - apply (bool_decide_unpack _). vm_compute. exact I.
  - apply Forall_forall, (bool_decide_unpack _). vm_compute. exact I.
Defined.

(** C3 (as amended).  Initialisation sets the word, the letters required
    (the distinct letters of the word) and the puzzle (one position per
    character, none shown).  It does not write the drawing stage nor the
    set of guesses: both keep the value they had before the call, so they
    are 0 and empty after it when the state was new or reset. *)
Theorem initialise_game_post state w :
  let state' := Hangman.initialise_game state w in
  word state' = w
  ∧ remaining_letters state' = py_set w
  ∧ puzzle state' = (λ c, mkPuzzleLetter c false) <$> Str.chars w
  ∧ image_idx state' = image_idx state
  ∧ guesses state' = guesses state
  ∧ image_idx (fresh_round state w) = 0
  ∧ guesses (fresh_round state w) = ∅.
Proof. by repeat split. Qed.

(** C3 fails as stated: initialising a state in which a wrong guess has
    been made leaves the drawing at stage 1 and the guess in the set. *)
Lemma initialise_game_post_counterexample :
  let state := Hangman.update_game_state (fresh_round new_GameState "DOG") "X" in
  let state' := Hangman.initialise_game state "CAT" in
  image_idx state' = 1
  ∧ guesses state' = {[ "X" ]}
  ∧ ¬ (remaining_letters state' = py_set "CAT"
       ∧ puzzle state' = (λ c, mkPuzzleLetter c false) <$> Str.chars "CAT"
       ∧ image_idx state' = 0
       ∧ guesses state' = ∅).
Proof.
  split; [reflexivity|]. split; [by vm_compute|].
  intros (_ & _ & H & _). discriminate H.
Qed.

(** C4.  In every state of a round on [w], the letters required together
    with the characters shown in the puzzle are the distinct letters of
    [w], and the letters required are the distinct letters of [w] less
    those guessed correctly. *)
Theorem reachable_remaining_letters w state :
  reachable w state →
  remaining_letters state ∪ revealed_letters (puzzle state) = py_set w
  ∧ remaining_letters state = py_set w ∖ guessed_correctly w state.
Proof.
  intros Hinv%reachable_round_inv.
  rewrite (round_inv_revealed w state Hinv).
  destruct Hinv as (_ & -> & _). unfold guessed_correctly.
  split; apply set_eq; intros c;
    destruct (decide (c ∈ guesses state)); set_solver.
Qed.

Lemma reachable_remaining_letters_witness :
  let state := Hangman.update_game_state (fresh_round new_GameState "CAT") "A" in
  remaining_letters state ∪ revealed_letters (puzzle state) = py_set "CAT"
  ∧ remaining_letters state = py_set "CAT" ∖ guessed_correctly "CAT" state.
Proof.
  apply (reachable_remaining_letters "CAT").
  apply reach_guess; [apply reach_fresh|].
  split; [reflexivity|]. apply (bool_decide_unpack _). vm_compute. exact I.
Defined.

(** C5 (as amended).  With a guess that is not among the letters
    required, [update_state_on_guess] adds exactly one to the drawing
    stage and does not saturate: below [maxStages] the stage stays within
    [maxStages], at [maxStages] it becomes [maxStages + 1]. *)
Theorem update_state_on_guess_wrong self :
  current_guess self ∉ remaining_letters self →
  let self' := GS.update_state_on_guess self in
  image_idx self' = image_idx self + 1
  ∧ (image_idx self < maxStages → image_idx self' ≤ maxStages)
  ∧ (image_idx self = maxStages → image_idx self' = maxStages + 1)
  ∧ remaining_letters self' = remaining_letters self
  ∧ puzzle self' = puzzle self.
Proof.
  intros Hout self'. unfold self', GS.update_state_on_guess.
  rewrite bool_decide_eq_false_2 by done. simpl.
  repeat split; [lia|congruence].
Qed.

Lemma update_state_on_guess_wrong_witness :
  let self :=
    {| player_name := "Ann"; word := "DOG"; current_guess := "X";
       guesses := {[ "X" ]}; remaining_letters := py_set "DOG";
       puzzle := (λ c, mkPuzzleLetter c false) <$> Str.chars "DOG";
       image_idx := 0 |} in
  image_idx (GS.update_state_on_guess self) = 1
  ∧ image_idx (GS.update_state_on_guess self) ≤ maxStages
  ∧ remaining_letters (GS.update_state_on_guess self) = py_set "DOG"
  ∧ puzzle (GS.update_state_on_guess self) = puzzle self.
Proof.
  intros self.
  destruct (update_state_on_guess_wrong self)
    as (Hstage & Hbound & _ & Hrem & Hpuz).
  - apply (bool_decide_unpack _). vm_compute. exact I.
  - split; [exact Hstage|]. split; [apply Hbound; reflexivity|].
    split; [exact Hrem|exact Hpuz].
Defined.

(** C5 fails as stated: in the state the round is lost in, at stage
    [maxStages], one more wrong guess brings the stage to 10. *)
Lemma update_state_on_guess_wrong_counterexample :
  let lost :=
    after_guesses (fresh_round new_GameState "DOG")
      ["Q"; "W"; "E"; "R"; "T"; "Y"; "U"; "I"; "P"] in
  let self :=
    {| player_name := player_name lost; word := word lost;
       current_guess := "K"; guesses := guesses lost ∪ {[ "K" ]};
       remaining_letters := remaining_letters lost; puzzle := puzzle lost;
       image_idx := image_idx lost |} in
  image_idx self = maxStages
  ∧ (current_guess self ∉ remaining_letters self)
  ∧ image_idx (GS.update_state_on_guess self) = 10
  ∧ image_idx (GS.update_state_on_guess self) ≠ maxStages.
Proof.
  split; [reflexivity|]. split; [apply (bool_decide_unpack _); by vm_compute|].
  split; [reflexivity|]. discriminate.
Qed.

(** C6.  A letter typed again.  When the line typed normalises to a
    letter that is already in the set of guesses, [get_guess] says so,
    returns nothing for it and prompts again for the lines that follow;
    the round then goes on as if the line had not been typed, from the
    same state: the guess never reaches [update_game_state]. *)
Theorem get_guess_rejects_repeat state line rest :
  Str.len (UI.normalise line) = 1 →
  UI.normalise line ∈ guesses state →
  UI.get_guess state (line :: rest)
  = UI.say ["Guess a letter: ";
            "You've already guessed '" +:+ UI.normalise line +:+ "'"]
           (UI.get_guess state rest)
  ∧ (∃ more, (UI.get_guess state rest).1 = "Guess a letter: " :: more)
  ∧ (remaining_letters state ≠ ∅ →
     play_loop state (line :: rest) = play_loop state rest
     ∧ play_game state (line :: rest) = play_game state rest).
Proof.
  intros Hlen Hold.
  pose proof (get_guess_repeat state line rest Hlen Hold) as Hget.
  split; [done|]. split; [apply get_guess_prompts|].
  intros Hrem.
  assert (play_loop state (line :: rest) = play_loop state rest) as Hloop.
  { rewrite (play_loop_eq state (line :: rest)), (play_loop_eq state rest).
    rewrite bool_decide_eq_true_2 by done. by rewrite Hget. }
  split; [done|]. unfold play_game. by rewrite Hloop.
Qed.

Lemma get_guess_rejects_repeat_witness :
  let state := Hangman.update_game_state (fresh_round new_GameState "CAT") "A" in
  UI.get_guess state [" a"; "T"]
  = UI.say ["Guess a letter: "; "You've already guessed 'A'"]
           (UI.get_guess state ["T"])
  ∧ (∃ more, (UI.get_guess state ["T"]).1 = "Guess a letter: " :: more)
  ∧ play_loop state [" a"; "T"] = play_loop state ["T"]
  ∧ play_game state [" a"; "T"] = play_game state ["T"].
Proof.
  intros state.
  destruct (get_guess_rejects_repeat state " a" ["T"]) as (Hsay & Hprompt & Hsame).
  - reflexivity.
  - apply (bool_decide_unpack _). vm_compute. exact I.
  - split; [exact Hsay|]. split; [exact Hprompt|].
    apply Hsame. apply (bool_decide_unpack _). vm_compute. exact I.
Defined.

(** C7.  Loss before win.  When the guess the loop takes brings the state
    to a drawing stage of [maxStages], [play_game] returns [False] in
    that state, whatever the letters still required are, none included;
    it does not return [True]. *)
Theorem play_game_loss_before_win state inputs out g rest :
  remaining_letters state ≠ ∅ →
  UI.get_guess state inputs = (out, Some (g, rest)) →
  image_idx (Hangman.update_game_state state g) = maxStages →
  play_game state inputs
  = Returned false (Hangman.update_game_state state g) rest
  ∧ ∀ state' unread, play_game state inputs ≠ Returned true state' unread.
Proof.
  intros Hrem Hget Himg.
  assert (play_game state inputs
          = Returned false (Hangman.update_game_state state g) rest) as ->;
    [|done].
  assert (8 ≤ image_idx state ≤ 9) as Hstage.
  { change maxStages with 9 in Himg.
    destruct (decide (g ∈ remaining_letters state)) as [Hin|Hout].
    - destruct (update_good state g Hin) as (_ & ? & _). lia.
    - destruct (update_bad state g Hout) as (_ & ? & _). lia. }
  unfold play_game.
  destruct (update_screen_ok state) as [shown ->]; [lia|].
  rewrite play_loop_eq, bool_decide_eq_true_2, Hget by done. simpl.
  destruct (update_screen_ok (Hangman.update_game_state state g))
    as [shown' ->]; [rewrite Himg; by compute|].
  unfold Hangman.player_loses. by rewrite Himg.
Qed.

Lemma play_game_loss_before_win_witness :
  let state :=
    {| player_name := "Ann"; word := "A"; current_guess := "";
       guesses := ∅; remaining_letters := {[ "A" ]};
       puzzle := [mkPuzzleLetter "A" false]; image_idx := 9 |} in
  remaining_letters (Hangman.update_game_state state "A") = ∅
  ∧ play_game state ["A"]
    = Returned false (Hangman.update_game_state state "A") []
  ∧ ∀ state' unread, play_game state ["A"] ≠ Returned true state' unread.
Proof.
  intros state. split; [by vm_compute|].
  apply (play_game_loss_before_win state ["A"] ["Guess a letter: "] "A" []).
  - apply (bool_decide_unpack _). vm_compute. exact I.
  - reflexivity.
  - reflexivity.
Defined.

(** A letter still required is shown wherever the puzzle has it, whatever
    the state. *)
Lemma update_puzzle_reveals state g i pl :
  g ∈ remaining_letters state →
  puzzle state !! i = Some pl → character pl = g →
  puzzle (Hangman.update_game_state state g) !! i = Some (mkPuzzleLetter g true).
Proof.
  intros Hin Hpl Hc. destruct (update_good state g Hin) as (_ & _ & ->).
  rewrite list_lookup_fmap, Hpl. simpl.
  by rewrite Hc, bool_decide_eq_true_2, orb_true_r.
Qed.

(** C8.  One guess shows every occurrence.  In a state of a round on [w],
    after the single call for the guess [g], every position at which [w]
    has the letter [g] holds [g] in the puzzle, shown. *)
Theorem update_game_state_reveals_all w state g i :
  reachable w state →
  Str.chars w !! i = Some g →
  puzzle (Hangman.update_game_state state g) !! i
  = Some (mkPuzzleLetter g true).
Proof.
  intros Hinv%reachable_round_inv Hi.
  apply (update_round_inv w state g) in Hinv.
  rewrite (round_inv_lookup w _ i g Hinv Hi). do 2 f_equal.
  apply bool_decide_eq_true_2. rewrite update_guesses. set_solver.
Qed.

Lemma update_game_state_reveals_all_witness :
  let state := Hangman.update_game_state (fresh_round new_GameState "GOOSE") "O" in
  puzzle state !! 1%nat = Some (mkPuzzleLetter "O" true)
  ∧ puzzle state !! 2%nat = Some (mkPuzzleLetter "O" true).
Proof.
  split.
  - apply (update_game_state_reveals_all "GOOSE" _ "O" 1);
      [apply reach_fresh|reflexivity].
  - apply (update_game_state_reveals_all "GOOSE" _ "O" 2);
      [apply reach_fresh|reflexivity].
Defined.

(** ** The word list *)

(** C9 (as amended).  [get_word_list] looks the category up in lower
    case: it raises [ValueError] exactly when the lower-cased category is
    no key of the table, and otherwise returns words that are each
    non-empty and in capital letters only.  With the table of the
    program, whose one key is "animals", the category "robots" raises. *)
Theorem get_word_list_spec category :
  match get_word_list category with
  | Raise e =>
      e = ValueError "Invalid category."
      ∧ word_list_dict !! Str.lower category = None
  | Ok words =>
      is_Some (word_list_dict !! Str.lower category)
      ∧ Forall quiz_word words
  end
  ∧ dom word_list_dict = {[ "animals" ]}
  ∧ get_word_list "robots" = Raise (ValueError "Invalid category.").
Proof.
  split; [|split; [|reflexivity]].
  - unfold get_word_list.
    destruct (word_list_dict !! Str.lower category) as [words|] eqn:E; [|done].
    split; [done|].
    unfold word_list_dict in E. apply lookup_singleton_Some in E as [_ <-].
    apply (bool_decide_unpack _). vm_compute. exact I.
  - unfold word_list_dict. by rewrite dom_singleton_L.
Qed.

(** C9 fails as stated: "ANIMALS" is no key of the table, and yet
    [get_word_list] returns the words of "animals" for it. *)
Lemma get_word_list_spec_counterexample :
  ("ANIMALS" ∉ dom word_list_dict)
  ∧ get_word_list "ANIMALS" = get_word_list "animals"
  ∧ ∀ e, get_word_list "ANIMALS" ≠ Raise e.
Proof.
  split; [apply (bool_decide_unpack _); by vm_compute|].
  split; [reflexivity|]. intros e. discriminate.
Qed.

(** ** The end of a round *)

(** C10.  [reset_current_game] empties the word, the current guess, the
    guesses, the letters required and the puzzle, sets the drawing stage
    to 0, and keeps the name of the player. *)
Theorem reset_current_game_post self :
  let self' := GS.reset_current_game self in
  word self' = ""
  ∧ current_guess self' = ""
  ∧ guesses self' = ∅
  ∧ remaining_letters self' = ∅
  ∧ puzzle self' = []
  ∧ image_idx self' = 0
  ∧ player_name self' = player_name self.
Proof. by repeat split. Qed.


(** * Further properties of the program *)

(** ** The prompt for a guess *)


(** When no line typed is a new guess, [get_guess] keeps waiting. *)
Lemma get_guess_none state inputs :
  (UI.get_guess state inputs).2 = None
  ↔ Forall (λ l, ¬ validated state (UI.normalise l)) inputs.
Proof.
  induction inputs as [|l inputs IH]; simpl; [done|].
  destruct (Z.eqb_spec (Str.len (UI.normalise l)) 1) as [Hlen|Hlen]; simpl;
    [destruct (decide (UI.normalise l ∈ guesses state)) as [Hold|Hnew]|].
  - rewrite bool_decide_eq_true_2 by done. simpl. rewrite IH, Forall_cons.
    split; [|by intros [_ ?]]. split; [|done]. by intros [_ ?].
  - rewrite bool_decide_eq_false_2 by done. simpl. rewrite Forall_cons.
    split; [done|]. intros [Hbad _]. by destruct Hbad.
  - rewrite IH, Forall_cons.
    split; [|by intros [_ ?]]. split; [|done]. by intros [? _].
Qed.

(** ** The loop of a round *)

(** A guess that [get_guess] returns is one character not tried yet. *)
Lemma get_guess_validated state inputs out g rest :
  UI.get_guess state inputs = (out, Some (g, rest)) → validated state g.
Proof.
  revert out. induction inputs as [|line inputs IH]; intros out; simpl.
  { intros [=]. }
  destruct (Z.eqb_spec (Str.len (UI.normalise line)) 1) as [Hlen|Hlen]; simpl.
  - destruct (decide (UI.normalise line ∈ guesses state)) as [Hold|Hnew].
    + rewrite bool_decide_eq_true_2 by done.
      destruct (UI.get_guess state inputs) as [o r] eqn:E.
      unfold UI.say; simpl. intros [= _ ->]. by eapply IH.
    + rewrite bool_decide_eq_false_2 by done. by intros [= _ <- _].
  - destruct (UI.get_guess state inputs) as [o r] eqn:E.
    unfold UI.say; simpl. intros [= _ ->]. by eapply IH.
Qed.

(** Every guess the loop takes has passed [get_guess]: the state
    [play_game] leaves a round in is a state of that round. *)
Lemma play_loop_reachable w n :
  ∀ inputs state,
    (length inputs < n)%nat →
    reachable w state →
    reachable w (final_state (play_loop state inputs)).
Proof.
  induction n as [|n IH]; intros inputs state Hn Hreach; [lia|].
  rewrite play_loop_eq. destruct (bool_decide _); [|done].
  destruct (UI.get_guess state inputs) as [out [[g rest]|]] eqn:Hget;
    simpl; [|done].
  assert (reachable w (Hangman.update_game_state state g)) as Hreach'.
  { apply reach_guess; [done|].
    by apply get_guess_validated in Hget. }
  apply get_guess_unread in Hget.
  destruct (UI.update_screen _); [|done].
  destruct (Hangman.player_loses _); [done|].
  apply IH; [lia|done].
Qed.

(** X2.  Whatever is typed, the state [play_game] leaves a fresh round in
    is a state of that round: no guess reaches the state but through
    [get_guess]. *)
Theorem play_game_reachable session w inputs :
  reachable w (final_state (play_game (fresh_round session w) inputs)).
Proof.
  unfold play_game.
  destruct (UI.update_screen _); [|apply reach_fresh].
  apply (play_loop_reachable w (S (length inputs))); [lia|apply reach_fresh].
Qed.

(** What each way out of the loop tells, from a state whose drawing is
    not complete: [True] is returned with no letter required, [False]
    with the drawing complete and letters still required, and no
    exception escapes. *)
Lemma play_loop_outcome n :
  ∀ inputs state,
    (length inputs < n)%nat →
    0 ≤ image_idx state < maxStages →
    match play_loop state inputs with
    | Returned true state' _ =>
        remaining_letters state' = ∅ ∧ 0 ≤ image_idx state' < maxStages
    | Returned false state' _ =>
        remaining_letters state' ≠ ∅ ∧ image_idx state' = maxStages
    | AwaitingInput state' =>
        remaining_letters state' ≠ ∅ ∧ 0 ≤ image_idx state' < maxStages
    | Raised _ _ => False
    end.
Proof.
  induction n as [|n IH]; intros inputs state Hn Hstage; [lia|].
  rewrite play_loop_eq.
  destruct (decide (remaining_letters state = ∅)) as [Hrem|Hrem].
  { rewrite bool_decide_eq_false_2; [done|]. by intros []. }
  rewrite bool_decide_eq_true_2 by done.
  destruct (UI.get_guess state inputs) as [out [[g rest]|]] eqn:Hget;
    simpl; [|done].
  apply get_guess_unread in Hget.
  change maxStages with 9 in *.
  destruct (decide (g ∈ remaining_letters state)) as [Hin|Hout].
  - destruct (update_good state g Hin) as (_ & Himg & _).
    destruct (update_screen_ok (Hangman.update_game_state state g))
      as [shown ->]; [lia|].
    unfold Hangman.player_loses. change maxStages with 9.
    destruct (Z.eqb_spec (image_idx (Hangman.update_game_state state g)) 9);
      [lia|].
    apply IH; lia.
  - destruct (update_bad state g Hout) as (Hrem' & Himg & _).
    destruct (update_screen_ok (Hangman.update_game_state state g))
      as [shown ->]; [lia|].
    unfold Hangman.player_loses. change maxStages with 9.
    destruct (Z.eqb_spec (image_idx (Hangman.update_game_state state g)) 9).
    + split; [congruence|done].
    + apply IH; lia.
Qed.

(** X3.  A fresh round, whatever is typed: [play_game] returns [True]
    only with no letter required, [False] only with the drawing complete
    and letters still required, or waits at the prompt; no exception
    escapes. *)
Theorem play_game_outcome session w inputs :
  match play_game (fresh_round session w) inputs with
  | Returned true state _ =>
      remaining_letters state = ∅ ∧ 0 ≤ image_idx state < maxStages
  | Returned false state _ =>
      remaining_letters state ≠ ∅ ∧ image_idx state = maxStages
  | AwaitingInput state =>
      remaining_letters state ≠ ∅ ∧ 0 ≤ image_idx state < maxStages
  | Raised _ _ => False
  end.
Proof.
  unfold play_game.
  destruct (update_screen_ok (fresh_round session w)) as [shown ->]; [done|].
  by apply (play_loop_outcome (S (length inputs))); [lia|].
Qed.

(** ** What the state of a round records *)

(** X4.  The drawing stage is the number of letters tried that are not in the
    word. *)
Theorem reachable_image_idx w state :
  reachable w state →
  image_idx state = Z.of_nat (size (guesses state ∖ py_set w)).
Proof.
  induction 1 as [session|state g Hreach IH [_ Hnew]].
  { simpl. by rewrite difference_disjoint_L, size_empty by set_solver. }
  rewrite update_guesses.
  destruct (reachable_round_inv w state Hreach) as (_ & Hrem & _).
  destruct (decide (g ∈ remaining_letters state)) as [Hin|Hout].
  - destruct (update_good state g Hin) as (_ & -> & _). rewrite IH.
    do 2 f_equal. rewrite Hrem in Hin. set_solver.
  - destruct (update_bad state g Hout) as (_ & -> & _). rewrite IH.
    assert (g ∉ py_set w) as Hw.
    { intros Hw. apply Hout. rewrite Hrem. by apply elem_of_difference. }
    assert ((guesses state ∪ {[g]}) ∖ py_set w
            = (guesses state ∖ py_set w) ∪ {[g]}) as -> by set_solver.
    rewrite (size_union (guesses state ∖ py_set w) {[g]}) by set_solver.
    rewrite size_singleton. lia.
Qed.

Lemma reachable_image_idx_witness :
  let state :=
    after_guesses (fresh_round new_GameState "CAT") ["X"; "A"; "Q"; "T"] in
  image_idx state = 2
  ∧ image_idx state = Z.of_nat (size (guesses state ∖ py_set "CAT")).
Proof.
  split; [reflexivity|].
  apply (reachable_image_idx "CAT").
  repeat (apply reach_guess;
          [|split; [reflexivity|apply (bool_decide_unpack _); vm_compute; exact I]]).
  apply reach_fresh.
Defined.

(** X5.  The row on the screen has, for each character of the word in order,
    the character if it has been tried and an underscore if not. *)
Theorem reachable_puzzle_row w state :
  reachable w state →
  UI.puzzle_row (puzzle state)
  = foldr String.append ""
      ((λ c, if bool_decide (c ∈ guesses state) then c +:+ " " else "_ ")
       <$> Str.chars w).
Proof.
  intros (_ & _ & Hpuz)%reachable_round_inv.
  unfold UI.puzzle_row. by rewrite Hpuz, <- list_fmap_compose.
Qed.

Lemma reachable_puzzle_row_witness :
  UI.puzzle_row
    (puzzle (Hangman.update_game_state (fresh_round new_GameState "GOOSE") "O"))
  = "_ O O _ _ ".
Proof.
  rewrite (reachable_puzzle_row "GOOSE"); [reflexivity|].
  apply reach_guess; [apply reach_fresh|].
  split; [reflexivity|]. apply (bool_decide_unpack _). vm_compute. exact I.
Defined.

(** X6.  One call of [update_game_state], in any state: the guess is recorded,
    the puzzle keeps its characters and what it shows, the letters
    required only get fewer and the drawing never goes back. *)
Theorem update_game_state_monotone state g :
  let state' := Hangman.update_game_state state g in
  (g ∈ guesses state')
  ∧ (guesses state ⊆ guesses state')
  ∧ (remaining_letters state' ⊆ remaining_letters state)
  ∧ (g ∉ remaining_letters state')
  ∧ image_idx state ≤ image_idx state' ≤ image_idx state + 1
  ∧ character <$> puzzle state' = character <$> puzzle state
  ∧ ∀ i pl, puzzle state !! i = Some pl → guessed pl = true →
            puzzle state' !! i = Some pl.
Proof.
  intros state'. unfold state'. rewrite update_guesses.
  split; [set_solver|]. split; [set_solver|].
  destruct (decide (g ∈ remaining_letters state)) as [Hin|Hout].
  - destruct (update_good state g Hin) as (-> & -> & ->).
    split; [set_solver|]. split; [set_solver|]. split; [lia|]. split.
    + rewrite <- list_fmap_compose. by apply list_fmap_ext.
    + intros i [c v] Hi Hv. simpl in Hv. subst v.
      by rewrite list_lookup_fmap, Hi.
  - destruct (update_bad state g Hout) as (-> & -> & ->).
    repeat split; try done; lia.
Qed.

(** ** The message after a guess *)

Lemma contains_char s c :
  Str.contains s (String c "") = bool_decide (String c "" ∈ Str.chars s).
Proof.
  induction s as [|c' s IH]; [done|]. simpl. rewrite IH.
  destruct (ascii_dec c c') as [->|Hne].
  - rewrite (bool_decide_eq_true_2 (_ ∈ _ :: _)) by left.
    by destruct s.
  - simpl. destruct (bool_decide (String c "" ∈ Str.chars s)) eqn:E.
    + apply bool_decide_eq_true in E. symmetry.
      apply bool_decide_eq_true_2. by right.
    + apply bool_decide_eq_false in E. symmetry.
      apply bool_decide_eq_false_2. intros [[=]|?]%elem_of_cons; done.
Qed.

(** X7.  In a round, the guess is reported as correct exactly when it is a
    letter of the word, and that is exactly when the drawing has not
    advanced. *)
Theorem is_good_guess_agrees w state g :
  reachable w state → validated state g →
  let state' := Hangman.update_game_state state g in
  (Hangman.is_good_guess state' = true ↔ g ∈ py_set w)
  ∧ (Hangman.is_good_guess state' = true ↔ image_idx state' = image_idx state)
  ∧ (Hangman.is_good_guess state' = false ↔
     image_idx state' = image_idx state + 1).
Proof.
  intros Hreach [Hlen Hnew] state'.
  destruct (reachable_round_inv w state Hreach) as (Hw & Hrem & _).
  assert (Hangman.is_good_guess state' = bool_decide (g ∈ py_set w)) as ->.
  { unfold Hangman.is_good_guess, state'. rewrite update_word, Hw.
    assert (current_guess (Hangman.update_game_state state g) = g) as ->.
    { unfold Hangman.update_game_state, GS.update_state_on_guess. simpl.
      by destruct (bool_decide _). }
    unfold Str.len in Hlen. destruct g as [|c [|]]; simpl in Hlen; try lia.
    rewrite contains_char. apply bool_decide_ext. by rewrite elem_of_py_set. }
  destruct (decide (g ∈ py_set w)) as [Hin|Hout].
  - rewrite bool_decide_eq_true_2 by done.
    assert (g ∈ remaining_letters state) as Hin'
      by (rewrite Hrem; by apply elem_of_difference).
    destruct (update_good state g Hin') as (_ & Himg & _). fold state' in Himg.
    repeat split; try done. lia.
  - rewrite bool_decide_eq_false_2 by done.
    assert (g ∉ remaining_letters state) as Hout'
      by (rewrite Hrem; set_solver).
    destruct (update_bad state g Hout') as (_ & Himg & _). fold state' in Himg.
    repeat split; try done. lia.
Qed.

Lemma is_good_guess_agrees_witness :
  let state := fresh_round new_GameState "CAT" in
  (Hangman.is_good_guess (Hangman.update_game_state state "X") = true
   ↔ "X" ∈ py_set "CAT")
  ∧ (Hangman.is_good_guess (Hangman.update_game_state state "X") = true
     ↔ image_idx (Hangman.update_game_state state "X") = image_idx state)
  ∧ (Hangman.is_good_guess (Hangman.update_game_state state "X") = false
     ↔ image_idx (Hangman.update_game_state state "X") = image_idx state + 1).
Proof.
  apply (is_good_guess_agrees "CAT").
  - apply reach_fresh.
  - split; [reflexivity|]. apply (bool_decide_unpack _). vm_compute. exact I.
Defined.

(** ** The drawing shown *)

(** X8.  [get_image] raises [IndexError] exactly when the stage is outside
    -10..9; within, it returns a drawing, and a negative stage shows the
    drawing ten places further. *)
Theorem get_image_bounds state :
  match UI.get_image state with
  | Ok image =>
      -10 ≤ image_idx state ≤ 9
      ∧ images !! Z.to_nat (image_idx state `mod` 10) = Some image
  | Raise e => e = IndexError ∧ ¬ (-10 ≤ image_idx state ≤ 9)
  end.
Proof.
  unfold UI.get_image, py_index. change (Z.of_nat (length images)) with 10.
  destruct (Z.ltb_spec (image_idx state) 0) as [Hneg|Hpos].
  - destruct (Z.ltb_spec (image_idx state + 10) 0) as [Hlow|Hlow]; simpl.
    { split; [done|lia]. }
    destruct (Z.leb_spec 10 (image_idx state + 10)); [lia|].
    replace (image_idx state `mod` 10) with (image_idx state + 10)
      by (apply (Z.mod_unique _ _ (-1)); lia).
    destruct (images !! Z.to_nat (image_idx state + 10)) as [image|] eqn:E.
    + split; [lia|done].
    + apply lookup_ge_None in E. simpl in E. lia.
  - destruct (Z.ltb_spec (image_idx state) 0); [lia|]. simpl.
    destruct (Z.leb_spec 10 (image_idx state)) as [Hhigh|Hhigh].
    { split; [done|lia]. }
    rewrite Z.mod_small by lia.
    destruct (images !! Z.to_nat (image_idx state)) as [image|] eqn:E.
    + split; [lia|done].
    + apply lookup_ge_None in E. simpl in E. lia.
Qed.

(** ** The secret word *)

Lemma animals_quiz_words words :
  get_word_list "animals" = Ok words → Forall quiz_word words.
Proof.
  intros [= <-]. apply (bool_decide_unpack _). vm_compute. exact I.
Qed.

Lemma py_index_in_range {A} (l : list A) i :
  0 ≤ i < Z.of_nat (length l) →
  ∃ x, py_index l i = Ok x ∧ l !! Z.to_nat i = Some x.
Proof.
  intros Hi. unfold py_index.
  destruct (Z.ltb_spec i 0); [lia|].
  destruct (Z.ltb_spec i 0); [lia|].
  destruct (Z.leb_spec (Z.of_nat (length l)) i); [lia|]. simpl.
  destruct (l !! Z.to_nat i) as [x|] eqn:E; [by exists x|].
  apply lookup_ge_None in E. lia.
Qed.

(** X9.  For every index that [randint(0, len(words) - 1)] can draw,
    [get_secret_word] returns the word at that index of the list: a word
    that is not empty and in capital letters; it raises nothing. *)
Theorem get_secret_word_in_range words pick :
  get_word_list "animals" = Ok words →
  0 ≤ pick ≤ Z.of_nat (length words) - 1 →
  ∃ secret_word,
    get_secret_word pick = Ok secret_word
    ∧ words !! Z.to_nat pick = Some secret_word
    ∧ quiz_word secret_word.
Proof.
  intros Hwords Hpick. unfold get_secret_word. rewrite Hwords.
  destruct (py_index_in_range words pick) as (secret & -> & Hlook); [lia|].
  pose proof (animals_quiz_words words Hwords) as Hall.
  assert (quiz_word secret) as Hquiz.
  { eapply Forall_forall; [exact Hall|]. by eapply list_elem_of_lookup_2. }
  exists secret.
  assert ((0 <? Str.len secret) = true) as ->; [|done].
  destruct Hquiz as [Hne _]. apply Z.ltb_lt. unfold Str.len.
  destruct secret; [done|simpl; lia].
Qed.

Lemma get_secret_word_in_range_witness :
  ∃ secret_word,
    get_secret_word 1 = Ok secret_word
    ∧ (Str.upper <$> Str.split animal_words) !! Z.to_nat 1 = Some secret_word
    ∧ quiz_word secret_word.
Proof.
  apply (get_secret_word_in_range (Str.upper <$> Str.split animal_words) 1).
  - reflexivity.
  - split; [discriminate|]. vm_compute. discriminate.
Defined.

(** ** Indented text *)

Lemma split_on_nonempty sep s : Str.split_on sep s ≠ [].
Proof.
  destruct s as [|c s]; simpl; [done|].
  destruct (Ascii.eqb c sep); [done|]. by destruct (Str.split_on sep s).
Qed.

(** The pieces of a split hold no separator. *)
Lemma split_on_pieces sep s :
  Forall (λ piece, Str.split_on sep piece = [piece]) (Str.split_on sep s).
Proof.
  induction s as [|c s IH]; simpl; [by constructor|].
  destruct (Ascii.eqb c sep) eqn:Hc; [by constructor|].
  destruct (Str.split_on sep s) as [|piece pieces];
    [constructor; [simpl; by rewrite Hc|done]|].
  inversion IH as [|?? Hpiece Hpieces]; subst.
  constructor; [|done]. simpl. by rewrite Hc, Hpiece.
Qed.

Lemma split_on_app sep piece s :
  Str.split_on sep piece = [piece] →
  Str.split_on sep (piece +:+ String sep s) = piece :: Str.split_on sep s.
Proof.
  induction piece as [|c piece IH]; simpl.
  { intros _. by rewrite Ascii.eqb_refl. }
  destruct (Ascii.eqb c sep); [done|].
  destruct (Str.split_on sep piece) as [|p ps] eqn:E.
  - by destruct (split_on_nonempty sep piece).
  - intros [= -> ->]. by rewrite IH.
Qed.

Lemma split_on_join sep pieces :
  pieces ≠ [] →
  Forall (λ piece, Str.split_on sep piece = [piece]) pieces →
  Str.split_on sep (Str.join (String sep "") pieces) = pieces.
Proof.
  induction pieces as [|piece pieces IH]; [done|]. intros _ Hall.
  inversion Hall as [|?? Hpiece Hpieces]; subst.
  destruct pieces as [|piece' pieces]; [done|].
  change (Str.join (String sep "") (piece :: piece' :: pieces))
    with (piece +:+ String sep (Str.join (String sep "") (piece' :: pieces))).
  rewrite split_on_app by done. f_equal. by apply IH.
Qed.

(** Joining the pieces of a split gives the string back. *)
Lemma join_split_on sep s :
  Str.join (String sep "") (Str.split_on sep s) = s.
Proof.
  induction s as [|c s IH]; [done|]. simpl.
  pose proof (split_on_nonempty sep s) as Hne.
  destruct (Ascii.eqb_spec c sep) as [->|_].
  - destruct (Str.split_on sep s) as [|piece pieces]; [done|].
    change (Str.join (String sep "") ("" :: piece :: pieces))
      with (String sep (Str.join (String sep "") (piece :: pieces))).
    by rewrite IH.
  - destruct (Str.split_on sep s) as [|piece pieces]; [done|].
    rewrite <- IH. by destruct pieces.
Qed.

Lemma split_on_space line :
  Str.split_on Str.nl line = [line] →
  Str.split_on Str.nl (String " " line) = [String " " line].
Proof. intros Hline. cbn [Str.split_on]. by rewrite Hline. Qed.

(** X10.  [indent_text] keeps the lines of the text, as many and in order, and
    puts four spaces before each, the empty ones included. *)
Theorem indent_text_lines text :
  Str.split_on Str.nl (UI.indent_text text)
  = (λ line, "    " +:+ line) <$> Str.split_on Str.nl text.
Proof.
  unfold UI.indent_text. apply split_on_join.
  - pose proof (split_on_nonempty Str.nl text).
    by destruct (Str.split_on Str.nl text).
  - apply Forall_fmap. eapply Forall_impl; [apply split_on_pieces|].
    intros line Hline. cbv beta in *.
    change (UI._indent +:+ line)
      with (String " " (String " " (String " " (String " " line)))).
    by do 4 apply split_on_space.
Qed.

(** ** The yes or no prompt *)

(** X11.  [prompt_confirm] answers with the first line typed that is one of
    "y", "yes", "n", "no", taken as typed, and leaves unread the lines
    after it; every line before it was refused. *)
Theorem prompt_confirm_first_answer prompt inputs b rest :
  (UI.prompt_confirm prompt inputs).2 = Some (b, rest)
  ↔ ∃ skipped val,
      inputs = skipped ++ val :: rest
      ∧ Forall (λ line, line ∉ UI.yes ++ UI.no) skipped
      ∧ val ∈ (if b then UI.yes else UI.no).
Proof.
  assert (∀ val, val ∈ UI.yes → val ∉ UI.no) as Hdisj.
  { intros val Hy Hn. unfold UI.yes, UI.no in *.
    set_unfold. naive_solver. }
  revert b rest. induction inputs as [|l inputs IH]; intros b rest; simpl.
  { split; [done|]. intros (skipped & val & H & _). by destruct skipped. }
  destruct (decide (l ∈ UI.yes)) as [Hy|Hy];
    [|destruct (decide (l ∈ UI.no)) as [Hn|Hn]].
  - rewrite bool_decide_eq_true_2 by done. simpl. split.
    + intros [= <- <-]. by exists [], l.
    + intros (skipped & val & Heq & Hsk & Hval).
      destruct skipped as [|l' skipped]; simpl in Heq; inversion Heq; subst.
      * destruct b; [done|]. by destruct (Hdisj val).
      * apply Forall_cons in Hsk as [Hbad _].
        assert (l' ∈ UI.yes ++ UI.no) as Hin by (apply elem_of_app; by left).
        by destruct Hbad.
  - rewrite bool_decide_eq_false_2, bool_decide_eq_true_2 by done. simpl.
    split.
    + intros [= <- <-]. by exists [], l.
    + intros (skipped & val & Heq & Hsk & Hval).
      destruct skipped as [|l' skipped]; simpl in Heq; inversion Heq; subst.
      * destruct b; [done|done].
      * apply Forall_cons in Hsk as [Hbad _].
        assert (l' ∈ UI.yes ++ UI.no) as Hin by (apply elem_of_app; by right).
        by destruct Hbad.
  - rewrite !bool_decide_eq_false_2 by done. simpl. rewrite IH. split.
    + intros (skipped & val & -> & Hsk & Hval).
      exists (l :: skipped), val. split; [done|]. split; [|done].
      apply Forall_cons. split; [|done]. intros Hin.
      by apply (elem_of_app UI.yes UI.no) in Hin as [?|?].
    + intros (skipped & val & Heq & Hsk & Hval).
      destruct skipped as [|l' skipped]; simpl in Heq; inversion Heq; subst.
      * by destruct b.
      * exists skipped, val. by apply Forall_cons in Hsk as [_ ?].
Qed.

(** An answer consumes a line. *)
Lemma prompt_confirm_unread prompt inputs b rest :
  (UI.prompt_confirm prompt inputs).2 = Some (b, rest) →
  (length rest < length inputs)%nat.
Proof.
  induction inputs as [|val inputs IH]; simpl; [done|].
  destruct (bool_decide (val ∈ UI.yes)); [intros [= _ <-]; lia|].
  destruct (bool_decide (val ∈ UI.no)); [intros [= _ <-]; lia|].
  simpl. intros Hrest. specialize (IH Hrest). lia.
Qed.

(** The capital letters the prompt itself names are refused. *)
Example prompt_confirm_capital :
  (UI.prompt_confirm "Play again? [y/n] " ["Y"; "N"; " y"; "Yes"; "n"; "y"]).2
  = Some (false, ["y"]).
Proof. reflexivity. Qed.

(** ** A game *)

(** The loop keeps the name of the player and the word, and reads the
    lines in order: what it leaves unread is shorter than what it was
    given, strictly so when a letter was required. *)
Lemma play_loop_frame n :
  ∀ inputs state,
    (length inputs < n)%nat →
    player_name (final_state (play_loop state inputs)) = player_name state
    ∧ word (final_state (play_loop state inputs)) = word state
    ∧ ∀ b state' unread,
        play_loop state inputs = Returned b state' unread →
        (length unread ≤ length inputs)%nat
        ∧ (remaining_letters state ≠ ∅ → (length unread < length inputs)%nat).
Proof.
  induction n as [|n IH]; intros inputs state Hn; [lia|].
  rewrite play_loop_eq.
  destruct (decide (remaining_letters state = ∅)) as [Hrem|Hrem].
  { rewrite bool_decide_eq_false_2 by (by intros []).
    split; [done|]. split; [done|].
    intros b state' unread [= <- <- <-]. split; [lia|done]. }
  rewrite bool_decide_eq_true_2 by done.
  destruct (UI.get_guess state inputs) as [out [[g rest]|]] eqn:Hget;
    simpl; [|done].
  apply get_guess_unread in Hget.
  destruct (UI.update_screen _).
  - destruct (Hangman.player_loses _).
    + simpl. rewrite update_player_name, update_word.
      split; [done|]. split; [done|].
      intros b state' unread [= <- <- <-]. lia.
    + destruct (IH rest (Hangman.update_game_state state g)) as (-> & -> & Hun);
        [lia|].
      rewrite update_player_name, update_word.
      split; [done|]. split; [done|].
      intros b state' unread Hret. destruct (Hun _ _ _ Hret). lia.
  - simpl. by rewrite update_player_name, update_word.
Qed.

Lemma play_game_frame state inputs :
  player_name (final_state (play_game state inputs)) = player_name state
  ∧ word (final_state (play_game state inputs)) = word state
  ∧ ∀ b state' unread,
      play_game state inputs = Returned b state' unread →
      (length unread ≤ length inputs)%nat
      ∧ (remaining_letters state ≠ ∅ → (length unread < length inputs)%nat).
Proof.
  unfold play_game. destruct (UI.update_screen state); [|done].
  apply (play_loop_frame (S (length inputs))). lia.
Qed.

(** A word that [get_secret_word] returns is not empty: the test on its
    length sees to it. *)
Lemma get_secret_word_nonempty pick w : get_secret_word pick = Ok w → w ≠ "".
Proof.
  unfold get_secret_word. destruct (get_word_list "animals"); [|done].
  destruct (py_index _ _) as [secret|]; [|done].
  destruct (Z.ltb_spec 0 (Str.len secret)) as [Hlen|]; [|done].
  intros [= <-] ->. by compute in Hlen.
Qed.

(** The rest of [new_game] keeps the name of the player, however it
    ends. *)
Lemma new_game_named_player_name state pick inputs :
  player_name (end_state (new_game_named state pick inputs))
  = player_name state.
Proof.
  unfold new_game_named.
  destruct (get_secret_word pick) as [secret|[]]; try done.
  destruct (play_game_frame (Hangman.initialise_game state secret) inputs)
    as (Hname & _).
  by destruct (play_game _ _).
Qed.

(** When the rest of [new_game] comes to its end, the word was drawn,
    the state is reset and a line at least was read. *)
Lemma new_game_named_over state pick inputs player_wins answer state' unread :
  new_game_named state pick inputs = GameOver player_wins answer state' unread →
  get_secret_word pick = Ok answer
  ∧ GS.reset_current_game state' = state'
  ∧ (length unread < length inputs)%nat.
Proof.
  unfold new_game_named.
  destruct (get_secret_word pick) as [secret|[]] eqn:Hsecret; try done.
  apply get_secret_word_nonempty in Hsecret.
  destruct (play_game_frame (Hangman.initialise_game state secret) inputs)
    as (_ & Hword & Hun).
  destruct (play_game _ _) as [b st rest| |] eqn:Hplay; try done.
  intros [= <- <- <- <-]. simpl in Hword. rewrite Hword.
  repeat split; try done.
  destruct (Hun _ _ _ eq_refl) as [_ Hlt]. apply Hlt.
  by apply py_set_nonempty.
Qed.

(** What a game that has come to its end leaves for the next turn of the
    session. *)
Lemma new_game_turn state pick inputs player_wins answer state' unread :
  new_game state pick inputs = GameOver player_wins answer state' unread →
  GS.reset_current_game state' = state'
  ∧ (length unread < length inputs)%nat
  ∧ (player_name state ≠ "" → player_name state' = player_name state)
  ∧ (player_name state = "" →
     ∃ line rest, inputs = line :: rest ∧ player_name state' = Str.title line).
Proof.
  unfold new_game. destruct (decide (player_name state = "")) as [Hno|Hyes].
  - rewrite bool_decide_eq_true_2 by done.
    destruct inputs as [|line rest]; simpl; [done|]. intros Hover.
    pose proof (new_game_named_player_name
                  (set_player_name state (Str.title line)) pick rest) as Hname.
    rewrite Hover in Hname.
    apply new_game_named_over in Hover as (_ & ? & ?).
    repeat split; try done; [lia|]. intros _. by exists line, rest.
  - rewrite bool_decide_eq_false_2 by done. intros Hover.
    pose proof (new_game_named_player_name state pick inputs) as Hname.
    rewrite Hover in Hname.
    apply new_game_named_over in Hover as (_ & ? & ?).
    repeat split; done.
Qed.


(** X13.  When [new_game] comes to its end, the answer reported is the
    word drawn, the state is reset under the name of the player, and at
    least one line was read. *)
Theorem new_game_over state pick inputs player_wins answer state' unread :
  new_game state pick inputs = GameOver player_wins answer state' unread →
  get_secret_word pick = Ok answer
  ∧ GS.reset_current_game state' = state'
  ∧ (length unread < length inputs)%nat.
Proof.
  unfold new_game. destruct (bool_decide _); [|apply new_game_named_over].
  destruct inputs as [|line rest]; simpl; [done|].
  intros (? & ? & ?)%new_game_named_over. repeat split; try done. lia.
Qed.

Lemma new_game_over_witness :
  get_secret_word 1 = Ok "CAT"
  ∧ GS.reset_current_game (set_player_name new_GameState "Bob")
    = set_player_name new_GameState "Bob"
  ∧ (length ["y"] < length ["bob"; "c"; "x"; "a"; "t"; "y"])%nat.
Proof.
  apply (new_game_over new_GameState 1 ["bob"; "c"; "x"; "a"; "t"; "y"]
           true "CAT" (set_player_name new_GameState "Bob") ["y"]).
  vm_compute. reflexivity.
Defined.

(** ** A session *)

(** Every turn of the loop of [main] reads a line at least: with the
    lines typed, the loop is over, or waits, before it has taken more
    turns than there are lines. *)
Lemma main_loop_settles n :
  ∀ picks state game inputs,
    (length inputs < n)%nat →
    ∀ state' game' inputs',
      main_loop n picks state game inputs ≠ Playing state' game' inputs'.
Proof.
  induction n as [|n IH]; intros picks state game inputs Hn; [lia|]. simpl.
  destruct (new_game state (picks game) inputs)
    as [b answer st unread| | |] eqn:Hgame; try done.
  apply new_game_turn in Hgame as (_ & Hlt & _).
  destruct (UI.prompt_confirm _ unread).2 as [[[] rest]|] eqn:Hconf; try done.
  apply prompt_confirm_unread in Hconf. apply IH. lia.
Qed.

(** Once the loop is over, or waits, more turns change nothing. *)
Lemma main_loop_more n :
  ∀ picks state game inputs,
    (∀ state' game' inputs',
       main_loop n picks state game inputs ≠ Playing state' game' inputs') →
    main_loop (S n) picks state game inputs = main_loop n picks state game inputs.
Proof.
  induction n as [|n IH]; intros picks state game inputs Hover.
  { by destruct (Hover state game inputs). }
  change (main_loop (S (S n)) picks state game inputs)
    with (match new_game state (picks game) inputs with
          | GameExit state' => Exited state'
          | GameRaised e state' => Crashed e state'
          | GameAwaiting state' => Waiting state'
          | GameOver _ _ state' unread =>
              match (UI.prompt_confirm "Play again? [y/n] " unread).2 with
              | None => Waiting state'
              | Some (true, inputs') =>
                  main_loop (S n) picks state' (S game) inputs'
              | Some (false, _) => Quit (UI.display_exit_dialog state') state'
              end
          end).
  simpl in Hover |- *.
  destruct (new_game state (picks game) inputs) as [b answer st unread| | |];
    try done.
  destruct (UI.prompt_confirm _ unread).2 as [[[] rest]|]; try done.
  by apply IH.
Qed.

(** X14.  The session with the lines typed is what [main] has come to after
    one turn more than there are lines: it is over, or waits for a line,
    and further turns leave it as it is. *)
Theorem main_settles n picks inputs :
  (length inputs < n)%nat →
  main n picks inputs = main (S (length inputs)) picks inputs
  ∧ ∀ state game inputs', main n picks inputs ≠ Playing state game inputs'.
Proof.
  intros Hn. split; [|by apply main_loop_settles].
  unfold main. induction Hn as [|n Hn IH]; [done|].
  rewrite main_loop_more; [done|]. apply main_loop_settles. lia.
Qed.

Lemma main_settles_witness :
  main 9 (λ _, 1) ["bob"; "c"; "a"; "t"; "n"]
  = main 6 (λ _, 1) ["bob"; "c"; "a"; "t"; "n"]
  ∧ ∀ state game inputs',
      main 9 (λ _, 1) ["bob"; "c"; "a"; "t"; "n"] ≠ Playing state game inputs'.
Proof.
  apply (main_settles 9 (λ _, 1) ["bob"; "c"; "a"; "t"; "n"]).
  simpl. lia.
Defined.



